(** * Kobo sync authentication (cps/kobo_auth.py)

    A shallow embedding of the token based request authentication of
    Calibre-Web's Kobo integration: the URL value preprocessor that
    stashes the path token, the request loader that resolves it to a
    user, and the two routes that issue and revoke a user's token.

    Python state (flask.g, the SQLAlchemy session, os.urandom, the
    logger, flask_login) is threaded explicitly through a small
    state-and-exception monad. *)

From Stdlib Require Import ZArith Lia List Strings.Byte Ascii String.
From stdpp Require Import gmap strings list fin_maps.

Open Scope string_scope.
Open Scope list_scope.
Open Scope Z_scope.

(** ** Python values used by the module *)

(** [datetime.datetime]: the seven fields of a naive timestamp. *)
Module datetime.

Record t : Type := mk
  { year : Z; month : Z; day : Z;
    hour : Z; minute : Z; second : Z; microsecond : Z }.

(** [datetime.max] is [datetime(9999, 12, 31, 23, 59, 59, 999999)]. *)
Definition max : t := mk 9999 12 31 23 59 59 999999.

(** Field ranges accepted by the constructor ([MINYEAR = 1],
    [MAXYEAR = 9999]); the day bound is the calendar independent one. *)
Definition representable (d : t) : Prop :=
  1 <= year d <= 9999 /\ 1 <= month d <= 12 /\ 1 <= day d <= 31 /\
  0 <= hour d <= 23 /\ 0 <= minute d <= 59 /\ 0 <= second d <= 59 /\
  0 <= microsecond d <= 999999.

(** Comparison of timestamps is lexicographic on the fields. *)
Definition fields (d : t) : list Z :=
  [year d; month d; day d; hour d; minute d; second d; microsecond d].

Fixpoint lex_leb (xs ys : list Z) : bool :=
  match xs, ys with
  | x :: xs', y :: ys' => (x <? y) || ((x =? y) && lex_leb xs' ys')
  | [], _ => true
  | _ :: _, [] => false
  end.

Definition leb (a b : t) : bool := lex_leb (fields a) (fields b).

End datetime.

(** Exceptions that the modelled code can raise. *)
Inductive exn : Type :=
| KeyError (key : string)
| UnicodeDecodeError.

Inductive result (A : Type) : Type :=
| Ok (a : A)
| Raise (e : exn).
Arguments Ok {A} a.
Arguments Raise {A} e.

(** ** binascii.hexlify and bytes.decode *)

Definition hexdigits : list ascii :=
  list_ascii_of_string "0123456789abcdef".

Definition hexdigit (n : N) : ascii :=
  nth (N.to_nat n) hexdigits "0"%char.

(** [hexlify] writes every byte as two digits, high nibble first. *)
Definition hexlify_byte (b : byte) : list byte :=
  let n := Byte.to_N b in
  [byte_of_ascii (hexdigit (N.shiftr n 4));
   byte_of_ascii (hexdigit (N.land n 15))].

Definition hexlify (bs : list byte) : list byte :=
  flat_map hexlify_byte bs.

(** Well-formed UTF-8, as [bytes.decode("utf-8")] checks it.  A Python
    [str] is represented by its UTF-8 bytes, so decoding is validation. *)
Definition in_range (lo hi : N) (b : byte) : bool :=
  let n := Byte.to_N b in (lo <=? n)%N && (n <=? hi)%N.

Definition cont (b : byte) : bool := in_range 128 191 b.

Fixpoint utf8_valid (bs : list byte) : bool :=
  match bs with
  | [] => true
  | b0 :: r0 =>
    if in_range 0 127 b0 then utf8_valid r0
    else match r0 with
    | [] => false
    | b1 :: r1 =>
      if in_range 194 223 b0 then cont b1 && utf8_valid r1
      else match r1 with
      | [] => false
      | b2 :: r2 =>
        if in_range 224 239 b0 then
          (if in_range 224 224 b0 then in_range 160 191 b1
           else if in_range 237 237 b0 then in_range 128 159 b1
           else cont b1)
          && cont b2 && utf8_valid r2
        else match r2 with
        | [] => false
        | b3 :: r3 =>
          in_range 240 244 b0 &&
          (if in_range 240 240 b0 then in_range 144 191 b1
           else if in_range 244 244 b0 then in_range 128 143 b1
           else cont b1)
          && cont b2 && cont b3 && utf8_valid r3
        end
      end
    end
  end.

Definition decode_utf8 (bs : list byte) : result string :=
  if utf8_valid bs then Ok (string_of_list_byte bs) else Raise UnicodeDecodeError.

(** Lower-case hexadecimal digits, the alphabet of a token. *)
Definition is_lower_hex (c : ascii) : bool :=
  let n := N_of_ascii c in
  ((48 <=? n)%N && (n <=? 57)%N) || ((97 <=? n)%N && (n <=? 102)%N).

(** ** The user database (module [ub])

    The tables are lists in insertion order, and a query scans them in
    that order.  No constraint of the schema is enforced on insertion:
    the invariants a theorem relies on are its hypotheses. *)
Module ub.

(** Modelled from the spec: the table [User] of [cps.ub], which is not
    part of the sources at hand.  A row is identified by its primary key
    [id]; the other columns play no role here and are summarised by the
    user's name. *)
Record User : Type := mkUser
  { id : Z; nickname : string }.

(** Modelled from the spec: the table [RemoteAuthToken] of [cps.ub], not
    part of the sources at hand, with the columns of the spec's AuthToken
    entity under the names kobo_auth.py assigns them. *)
Record RemoteAuthToken : Type := mkToken
  { user_id : Z;
    expiration : datetime.t;
    auth_token : string;
    token_type : Z }.

#[export] Instance datetime_eq_dec : EqDecision datetime.t.
Proof. solve_decision. Defined.

#[export] Instance RemoteAuthToken_eq_dec : EqDecision RemoteAuthToken.
Proof. solve_decision. Defined.

(** [query(User).join(RemoteAuthToken)]: the inner join on the foreign
    key [RemoteAuthToken.user_id = User.id].  SQL leaves the order of
    the joined rows open; the properties below use the join through
    membership, or where a single row matches. *)
Definition join (us : list User) (ts : list RemoteAuthToken)
  : list (User * RemoteAuthToken) :=
  flat_map (fun u => map (pair u)
               (List.filter (fun t => user_id t =? id u) ts)) us.

End ub.


(** ** The world the module runs in *)

(** Observable effects, in the order the code performs them. *)
Inductive event : Type :=
| SelectUserByToken (value : string) (type : Z)
| SelectTokenByUser (user : Z) (type : Z)
| Insert (row : ub.RemoteAuthToken)
| DeleteTokensOfUser (user : Z) (type : Z)
| Commit
| LoginUser (user : ub.User)
| LogInfo (message : string).

Record world : Type := mkWorld
  { g : gmap string string;
    users : list ub.User;
    tokens : list ub.RemoteAuthToken;
    entropy : nat -> byte;
    consumed : nat;
    current_user : option ub.User;
    session_cookie : option Z;
    trace : list event }.

Definition set_g (f : gmap string string -> gmap string string) (w : world) : world :=
  mkWorld (f (g w)) (users w) (tokens w) (entropy w) (consumed w)
          (current_user w) (session_cookie w) (trace w).

Definition set_tokens (f : list ub.RemoteAuthToken -> list ub.RemoteAuthToken)
    (w : world) : world :=
  mkWorld (g w) (users w) (f (tokens w)) (entropy w) (consumed w)
          (current_user w) (session_cookie w) (trace w).

Definition set_consumed (n : nat) (w : world) : world :=
  mkWorld (g w) (users w) (tokens w) (entropy w) n
          (current_user w) (session_cookie w) (trace w).

Definition set_login (u : ub.User) (w : world) : world :=
  mkWorld (g w) (users w) (tokens w) (entropy w) (consumed w)
          (Some u) (Some (ub.id u)) (trace w).

Definition record (ev : event) (w : world) : world :=
  mkWorld (g w) (users w) (tokens w) (entropy w) (consumed w)
          (current_user w) (session_cookie w) (trace w ++ [ev]).

(** Computations: a state transformer that may end in an exception. *)
Definition M (A : Type) : Type := world -> result A * world.

Definition ret {A : Type} (a : A) : M A := fun w => (Ok a, w).

Definition raise {A : Type} (e : exn) : M A := fun w => (Raise e, w).

Definition bind {A B : Type} (m : M A) (k : A -> M B) : M B :=
  fun w =>
    match m w with
    | (Ok a, w') => k a w'
    | (Raise e, w') => (Raise e, w')
    end.

Declare Scope py_scope.
Delimit Scope py_scope with py.
Notation "x <- c1 ;; c2" := (bind c1 (fun x => c2))
  (at level 100, c1 at next level, right associativity) : py_scope.
Notation "c1 ;; c2" := (bind c1 (fun _ => c2))
  (at level 100, right associativity) : py_scope.

Definition modify (f : world -> world) : M unit := fun w => (Ok tt, f w).

Definition emit (ev : event) : M unit := modify (record ev).

(** *** flask.g and dict *)

Definition g_contains (key : string) : M bool :=
  fun w => (Ok (bool_decide (is_Some (g w !! key))), w).

Definition g_get (key : string) : M (option string) :=
  fun w => (Ok (g w !! key), w).

Definition g_setattr (key : string) (value : string) : M unit :=
  modify (set_g (insert key value)).

(** [dict.pop(key)] without a default: the value and the dict without
    the key, [KeyError] when the key is missing. *)
Definition dict_pop (key : string) (d : gmap string string)
  : M (string * gmap string string) :=
  match d !! key with
  | Some v => ret (v, delete key d)
  | None => raise (KeyError key)
  end.

(** *** ub.session *)

(** [session.query(User).join(RemoteAuthToken)
      .filter(auth_token == value).filter(token_type == type).first()] *)
Definition select_user_by_token (value : string) (type : Z)
    (us : list ub.User) (ts : list ub.RemoteAuthToken) : option ub.User :=
  fst <$> head
    (List.filter (fun r => ub.token_type (snd r) =? type)
       (List.filter (fun r => String.eqb (ub.auth_token (snd r)) value)
          (ub.join us ts))).

Definition query_user_by_token (value : string) (type : Z) : M (option ub.User) :=
  (emit (SelectUserByToken value type) ;;
   fun w => (Ok (select_user_by_token value type (users w) (tokens w)), w))%py.

(** [session.query(RemoteAuthToken)
      .filter(user_id == user).filter(token_type == type)] *)
Definition tokens_of_user (user : Z) (type : Z)
    (ts : list ub.RemoteAuthToken) : list ub.RemoteAuthToken :=
  List.filter (fun t => ub.token_type t =? type)
    (List.filter (fun t => ub.user_id t =? user) ts).

Definition query_token_by_user (user : Z) (type : Z)
  : M (option ub.RemoteAuthToken) :=
  (emit (SelectTokenByUser user type) ;;
   fun w => (Ok (head (tokens_of_user user type (tokens w))), w))%py.

(** [Query.delete()]: a bulk DELETE of the rows the query selects. *)
Fixpoint delete_rows (user : Z) (type : Z) (ts : list ub.RemoteAuthToken)
  : list ub.RemoteAuthToken :=
  match ts with
  | [] => []
  | t :: ts' =>
    if (ub.user_id t =? user) && (ub.token_type t =? type)
    then delete_rows user type ts'
    else t :: delete_rows user type ts'
  end.

Definition query_delete (user : Z) (type : Z) : M nat :=
  (emit (DeleteTokensOfUser user type) ;;
   fun w =>
     let ts' := delete_rows user type (tokens w) in
     (Ok (length (tokens w) - length ts')%nat, set_tokens (fun _ => ts') w))%py.

Definition session_add (row : ub.RemoteAuthToken) : M unit :=
  (emit (Insert row) ;; modify (set_tokens (fun ts => ts ++ [row])))%py.

Definition session_commit : M unit := emit Commit.

(** *** os.urandom, flask_login, logging *)

(** [os.urandom(n)]: the next [n] bytes of the system's entropy. *)
Definition urandom (n : nat) : M (list byte) :=
  fun w => (Ok (map (entropy w) (seq (consumed w) n)),
            set_consumed (consumed w + n)%nat w).

(** [flask_login.login_user]: the user becomes the authenticated
    identity of the request, and a session cookie for that user is
    issued on the response. *)
Definition login_user (u : ub.User) : M bool :=
  (emit (LoginUser u) ;; modify (set_login u) ;; ret true)%py.

Definition log_info (message : string) : M unit := emit (LogInfo message).

(** Lift a pure computation that may raise. *)
Definition lift {A : Type} (r : result A) : M A := fun w => (r, w).

(** [flask.url_for] and [flask_babel.gettext], kept symbolic: the URL of
    an endpoint with the token as path parameter, and a translated text. *)
Record url : Type := url_for
  { endpoint : string; url_auth_token : string; _external : bool }.

Inductive text : Type := gettext (msgid : string).

(** Modelled from the spec: [render_title_template] of [cps.web], which
    is not part of the sources at hand, renders the setup page that
    contains the fully qualified setup URL; the call is kept symbolic. *)
Record page : Type := render_title_template
  { template : string; title : text; kobo_auth_url : url }.

(** ** cps/kobo_auth.py *)

(** [pop_auth_token], the URL value preprocessor of the kobo blueprint.
    The dict [values] is updated in place; the updated dict is the
    result here. *)
Definition pop_auth_token (endpoint : option string) (values : gmap string string)
  : M (gmap string string) :=
  (popped <- dict_pop "auth_token" values ;;
   g_setattr "auth_token" (fst popped) ;;
   ret (snd popped))%py.

Definition get_auth_token : M (option string) :=
  (present <- g_contains "auth_token" ;;
   if present : bool then g_get "auth_token" else ret None)%py.

Definition no_token_message : string :=
  "Received Kobo request without a recognizable auth token.".

(** [load_user_from_kobo_request], the request loader.  [found] is the
    value of the early [return user]; without it control reaches the
    log call and the bare [return]. *)
Definition load_user_from_kobo_request {Request : Type} (request : Request)
  : M (option ub.User) :=
  (auth_token <- get_auth_token ;;
   found <- match auth_token with
            | Some value =>
              (user <- query_user_by_token value 1 ;;
               match user with
               | Some u => (login_user u ;; ret (Some u))
               | None => ret None
               end)
            | None => ret None
            end ;;
   match found with
   | Some u => ret (Some u)
   | None => (log_info no_token_message ;; ret None)
   end)%py.

(** [generate_auth_token], the body of the route
    [/generate_auth_token/<int:user_id>] (the route itself is only
    reached by a logged-in session, [@login_required]).  A row returned
    by [first()] is an object and therefore true in [if not auth_token]. *)
Definition generate_auth_token (user_id : Z) : M page :=
  (existing <- query_token_by_user user_id 1 ;;
   auth_token <- match existing with
                 | Some row => ret row
                 | None =>
                   (random <- urandom 16 ;;
                    value <- lift (decode_utf8 (hexlify random)) ;;
                    let row := ub.mkToken user_id datetime.max value 1 in
                    session_add row ;;
                    session_commit ;;
                    ret row)
                 end ;;
   ret (render_title_template "generate_kobo_auth_url.html"
          (gettext "Kobo Set-up")
          (url_for "kobo.TopLevelEndpoint" (ub.auth_token auth_token) true)))%py.

(** [delete_auth_token], the body of the route
    [/deleteauthtoken/<int:user_id>], also behind [@login_required]; the
    response is the empty string. *)
Definition delete_auth_token (user_id : Z) : M string :=
  (query_delete user_id 1 ;;
   session_commit ;;
   ret EmptyString)%py.

(** ** Store invariants and operation sequences *)

(** At most one row per [(user_id, token_type)]. *)
Definition one_token_per_user (ts : list ub.RemoteAuthToken) : Prop :=
  forall (user type : Z), (length (tokens_of_user user type ts) <= 1)%nat.

(** Token values are unique across the table. *)
Definition unique_token_values (ts : list ub.RemoteAuthToken) : Prop :=
  NoDup (map ub.auth_token ts).

(** [id] is the primary key of the user table. *)
Definition unique_user_ids (us : list ub.User) : Prop :=
  NoDup (map ub.id us).

Inductive op : Type :=
| Issue (user : Z)
| Revoke (user : Z).

Definition exec {A : Type} (m : M A) (w : world) : world := snd (m w).

Definition run_op (o : op) (w : world) : world :=
  match o with
  | Issue user => exec (generate_auth_token user) w
  | Revoke user => exec (delete_auth_token user) w
  end.

Definition run_ops (os : list op) (w : world) : world :=
  fold_left (fun w' o => run_op o w') os w.

(** The page [generate_auth_token] renders for a token value. *)
Definition setup_page (value : string) : page :=
  render_title_template "generate_kobo_auth_url.html"
    (gettext "Kobo Set-up")
    (url_for "kobo.TopLevelEndpoint" value true).

(** The row a first issuance stores, from the entropy it draws. *)
Definition fresh_value (w : world) : string :=
  string_of_list_byte (hexlify (map (entropy w) (seq (consumed w) 16))).

Definition fresh_row (user : Z) (w : world) : ub.RemoteAuthToken :=
  ub.mkToken user datetime.max (fresh_value w) 1.

(** The value of a hexadecimal digit. *)
Definition hex_value (c : ascii) : N :=
  let n := N_of_ascii c in
  if (n <=? 57)%N then (n - 48)%N else (n - 87)%N.


(** Events that read or write the token store. *)
Definition touches_store (ev : event) : bool :=
  match ev with
  | SelectUserByToken _ _ | SelectTokenByUser _ _
  | Insert _ | DeleteTokensOfUser _ _ | Commit => true
  | LoginUser _ | LogInfo _ => false
  end.

(** A small concrete world for examples: two users, one sync token. *)
Definition alice : ub.User := ub.mkUser 42 "alice".
Definition bob : ub.User := ub.mkUser 7 "bob".

Definition alice_token : ub.RemoteAuthToken :=
  ub.mkToken 42 datetime.max "a1b2c3d4e5f6a7b8c9d0e1f2a3b4c5d6" 1.

Definition sample_world (values : gmap string string)
    (rows : list ub.RemoteAuthToken) : world :=
  mkWorld values [alice; bob] rows (fun _ => Byte.x3c) 0 None None [].

(** The rows a query on [(user_id, token_type)] selects. *)
Definition selected (user type : Z) (t : ub.RemoteAuthToken) : bool :=
  (ub.user_id t =? user) && (ub.token_type t =? type).

(** The shape of every row [generate_auth_token] stores: type 1, no
    expiry, a value of 32 lower-case hexadecimal digits. *)
Definition issued_shape (t : ub.RemoteAuthToken) : Prop :=
  ub.token_type t = 1 /\
  ub.expiration t = datetime.max /\
  String.length (ub.auth_token t) = 32%nat /\
  Forall (fun c => is_lower_hex c = true)
         (list_ascii_of_string (ub.auth_token t)).

(** Events that change the token table. *)
Definition writes_store (ev : event) : bool :=
  match ev with
  | Insert _ | DeleteTokensOfUser _ _ | Commit => true
  | SelectUserByToken _ _ | SelectTokenByUser _ _
  | LoginUser _ | LogInfo _ => false
  end.

(** The same row with another expiry date. *)
Definition expiring (f : ub.RemoteAuthToken -> datetime.t)
    (t : ub.RemoteAuthToken) : ub.RemoteAuthToken :=
  ub.mkToken (ub.user_id t) (f t) (ub.auth_token t) (ub.token_type t).

(** * Properties *)

(** ** The monad and the primitives *)

Lemma bind_ok {A B : Type} (m : M A) (k : A -> M B) (w w' : world) (a : A) :
  m w = (Ok a, w') -> bind m k w = k a w'.
Proof. intros H. unfold bind. now rewrite H. Qed.

Lemma bind_raise {A B : Type} (m : M A) (k : A -> M B) (w w' : world) (e : exn) :
  m w = (Raise e, w') -> bind m k w = (Raise e, w').
Proof. intros H. unfold bind. now rewrite H. Qed.

Lemma get_auth_token_run (w : world) :
  get_auth_token w = (Ok (g w !! "auth_token"), w).
Proof.
  unfold get_auth_token, bind, g_contains, g_get, ret.
  destruct (g w !! "auth_token") as [value|] eqn:Hg.
  - rewrite bool_decide_eq_true_2 by eauto. now rewrite Hg.
  - rewrite bool_decide_eq_false_2; [reflexivity|].
    intros [v Hv]. discriminate.
Qed.

(** ** Lists: rows selected by a key that is unique *)

Lemma NoDup_map_inj {A B : Type} (f : A -> B) (l : list A) (x y : A) :
  NoDup (map f l) -> In x l -> In y l -> f x = f y -> x = y.
Proof.
  induction l as [|a l IH]; simpl; [tauto|].
  intros Hnd Hx Hy Hf. apply NoDup_cons in Hnd as [Hnotin Hnd].
  rewrite list_elem_of_In in Hnotin.
  destruct Hx as [<-|Hx], Hy as [<-|Hy]; trivial.
  - exfalso. apply Hnotin. rewrite Hf. now apply in_map.
  - exfalso. apply Hnotin. rewrite <- Hf. now apply in_map.
  - now apply IH.
Qed.

Lemma head_of_only {A : Type} (l : list A) (x : A) :
  In x l -> (forall y, In y l -> y = x) -> head l = Some x.
Proof.
  destruct l as [|a l]; simpl; [tauto|].
  intros _ Hall. f_equal. apply Hall. now left.
Qed.

Lemma head_None_nil {A : Type} (l : list A) : head l = None -> l = [].
Proof. destruct l; [reflexivity|discriminate]. Qed.

(** ** The join behind the resolver *)

Lemma in_selected (value : string) (type : Z) (us : list ub.User)
    (ts : list ub.RemoteAuthToken) (u : ub.User) (t : ub.RemoteAuthToken) :
  In (u, t)
     (List.filter (fun r => ub.token_type (snd r) =? type)
        (List.filter (fun r => String.eqb (ub.auth_token (snd r)) value)
           (ub.join us ts)))
  <-> In u us /\ In t ts /\ ub.user_id t = ub.id u /\
      ub.auth_token t = value /\ ub.token_type t = type.
Proof.
  rewrite !filter_In. unfold ub.join. rewrite in_flat_map. simpl.
  rewrite String.eqb_eq, Z.eqb_eq. split.
  - intros [[(u' & Hu' & Hin) Hv] Hty].
    apply in_map_iff in Hin as (t' & Heq & Hin).
    injection Heq as -> ->. apply filter_In in Hin as [Hin Hid].
    apply Z.eqb_eq in Hid. tauto.
  - intros (Hu & Ht & Hid & Hv & Hty). repeat split; trivial.
    exists u. split; trivial. apply in_map. apply filter_In.
    split; trivial. now apply Z.eqb_eq.
Qed.

(** Soundness of the lookup: a resolved user owns a stored row with the
    presented value and the queried type. *)
Lemma select_user_by_token_sound (value : string) (type : Z)
    (us : list ub.User) (ts : list ub.RemoteAuthToken) (u : ub.User) :
  select_user_by_token value type us ts = Some u ->
  exists t, In u us /\ In t ts /\ ub.user_id t = ub.id u /\
            ub.auth_token t = value /\ ub.token_type t = type.
Proof.
  unfold select_user_by_token.
  destruct (List.filter _ _) as [|[u' t] rest] eqn:Hsel; simpl; [discriminate|].
  intros [= <-]. exists t. apply (in_selected value type us ts u' t).
  rewrite Hsel. now left.
Qed.

Lemma select_user_by_token_none (value : string) (type : Z)
    (us : list ub.User) (ts : list ub.RemoteAuthToken) :
  (forall t, In t ts -> ub.auth_token t = value -> ub.token_type t <> type) ->
  select_user_by_token value type us ts = None.
Proof.
  intros Hno. destruct (select_user_by_token value type us ts) as [u|] eqn:Hsel;
    [|reflexivity].
  apply select_user_by_token_sound in Hsel as (t & _ & Hin & _ & Hv & Hty).
  now destruct (Hno t Hin Hv).
Qed.

Lemma select_user_by_token_owner (value : string) (type : Z)
    (us : list ub.User) (ts : list ub.RemoteAuthToken)
    (u : ub.User) (t : ub.RemoteAuthToken) :
  unique_user_ids us -> unique_token_values ts ->
  In u us -> In t ts -> ub.user_id t = ub.id u ->
  ub.auth_token t = value -> ub.token_type t = type ->
  select_user_by_token value type us ts = Some u.
Proof.
  intros Hus Hts Hu Ht Hid Hv Hty. unfold select_user_by_token.
  rewrite (head_of_only _ (u, t)); [reflexivity| |].
  - apply in_selected. tauto.
  - intros [u' t'] Hin. apply in_selected in Hin as (Hu' & Ht' & Hid' & Hv' & _).
    assert (t' = t) as ->.
    { apply (NoDup_map_inj ub.auth_token ts); trivial. congruence. }
    f_equal. apply (NoDup_map_inj ub.id us); trivial. congruence.
Qed.

(** The resolver, step by step. *)
Lemma load_user_run {Request : Type} (request : Request) (w : world) :
  load_user_from_kobo_request request w =
  match g w !! "auth_token" with
  | Some value =>
    let w1 := record (SelectUserByToken value 1) w in
    match select_user_by_token value 1 (users w) (tokens w) with
    | Some u => (Ok (Some u), set_login u (record (LoginUser u) w1))
    | None => (Ok None, record (LogInfo no_token_message) w1)
    end
  | None => (Ok None, record (LogInfo no_token_message) w)
  end.
Proof.
  unfold load_user_from_kobo_request.
  rewrite (bind_ok _ _ _ _ _ (get_auth_token_run w)).
  destruct (g w !! "auth_token") as [value|]; [|reflexivity].
  unfold bind, query_user_by_token, bind, emit, modify; simpl.
  destruct (select_user_by_token value 1 (users w) (tokens w)); reflexivity.
Qed.

(** ** Resolving a request *)

(** C1. When the stashed token [T] is the value of a stored row of type 1
    owned by the user [U], and token values are unique in the store (and
    [id] is the key of the user table), the request loader returns exactly
    [U] and no other user, logs [U] in as the identity of the request, and
    leaves the store as it was. *)
Theorem valid_token_resolves_to_owner :
  forall (Request : Type) (request : Request) (w : world)
         (U : ub.User) (row : ub.RemoteAuthToken) (T : string),
    unique_user_ids (users w) ->
    unique_token_values (tokens w) ->
    In U (users w) ->
    In row (tokens w) ->
    ub.auth_token row = T ->
    ub.token_type row = 1 ->
    ub.user_id row = ub.id U ->
    g w !! "auth_token" = Some T ->
    exists w',
      load_user_from_kobo_request request w = (Ok (Some U), w') /\
      (forall V, fst (load_user_from_kobo_request request w) = Ok (Some V) -> V = U) /\
      current_user w' = Some U /\
      session_cookie w' = Some (ub.id U) /\
      users w' = users w /\
      tokens w' = tokens w /\
      trace w' = trace w ++ [SelectUserByToken T 1; LoginUser U].
Proof.
  intros Request request w U row T Hus Hts HU Hrow Hv Hty Hid Hg.
  pose proof (select_user_by_token_owner T 1 _ _ U row Hus Hts HU Hrow Hid Hv Hty)
    as Hsel.
  rewrite load_user_run, Hg, Hsel. simpl.
  eexists. split; [reflexivity|]. simpl.
  repeat split; trivial.
  - intros V [= ->]. reflexivity.
  - now rewrite <- app_assoc.
Qed.

Lemma valid_token_resolves_to_owner_witness :
  fst (load_user_from_kobo_request tt
         (sample_world {[ "auth_token" := "a1b2c3d4e5f6a7b8c9d0e1f2a3b4c5d6" ]}
                       [alice_token]))
  = Ok (Some alice).
Proof.
  destruct (valid_token_resolves_to_owner unit tt
              (sample_world {[ "auth_token" := "a1b2c3d4e5f6a7b8c9d0e1f2a3b4c5d6" ]}
                            [alice_token])
              alice alice_token "a1b2c3d4e5f6a7b8c9d0e1f2a3b4c5d6")
    as (w' & Hrun & _).
  - apply (bool_decide_unpack _). vm_compute. exact I.
  - apply (bool_decide_unpack _). vm_compute. exact I.
  - simpl. now left.
  - simpl. now left.
  - reflexivity.
  - reflexivity.
  - reflexivity.
  - reflexivity.
  - rewrite Hrun. reflexivity.
Defined.

(** C8. A stashed token that matches no stored row of type 1: the loader
    queries once, logs the diagnostic message and returns no identity; it
    raises nothing, nobody is logged in and the store is unchanged. *)
Theorem unknown_token_resolves_to_nobody :
  forall (Request : Type) (request : Request) (w : world) (T : string),
    g w !! "auth_token" = Some T ->
    (forall row, In row (tokens w) ->
                 ub.auth_token row = T -> ub.token_type row <> 1) ->
    exists w',
      load_user_from_kobo_request request w = (Ok None, w') /\
      users w' = users w /\
      tokens w' = tokens w /\
      current_user w' = current_user w /\
      session_cookie w' = session_cookie w /\
      trace w' = trace w ++ [SelectUserByToken T 1; LogInfo no_token_message].
Proof.
  intros Request request w T Hg Hno.
  rewrite load_user_run, Hg.
  rewrite (select_user_by_token_none T 1 _ _ Hno). simpl.
  eexists. split; [reflexivity|]. simpl.
  repeat split; trivial. now rewrite <- app_assoc.
Qed.

Lemma unknown_token_resolves_to_nobody_witness :
  fst (load_user_from_kobo_request tt
         (sample_world {[ "auth_token" := "00000000000000000000000000000000" ]}
                       [alice_token]))
  = Ok None.
Proof.
  destruct (unknown_token_resolves_to_nobody unit tt
              (sample_world {[ "auth_token" := "00000000000000000000000000000000" ]}
                            [alice_token])
              "00000000000000000000000000000000")
    as (w' & Hrun & _).
  - reflexivity.
  - intros row [<-|[]] Hv. discriminate Hv.
  - rewrite Hrun. reflexivity.
Defined.

(** C9. With no token stashed in [g], the loader returns no identity and
    raises nothing; the only effect is the log line: the token store is
    neither queried nor changed. *)
Theorem no_token_resolves_to_nobody :
  forall (Request : Type) (request : Request) (w : world),
    g w !! "auth_token" = None ->
    exists w',
      load_user_from_kobo_request request w = (Ok None, w') /\
      users w' = users w /\
      tokens w' = tokens w /\
      current_user w' = current_user w /\
      session_cookie w' = session_cookie w /\
      trace w' = trace w ++ [LogInfo no_token_message] /\
      forall ev, In ev [LogInfo no_token_message] -> touches_store ev = false.
Proof.
  intros Request request w Hg.
  rewrite load_user_run, Hg.
  eexists. split; [reflexivity|]. simpl.
  repeat split; trivial. intros ev [<-|[]]. reflexivity.
Qed.

Lemma no_token_resolves_to_nobody_witness :
  fst (load_user_from_kobo_request tt (sample_world ∅ [alice_token])) = Ok None.
Proof.
  destruct (no_token_resolves_to_nobody unit tt (sample_world ∅ [alice_token]))
    as (w' & Hrun & _).
  - reflexivity.
  - rewrite Hrun. reflexivity.
Defined.

(** ** Extracting the path token *)

(** What [pop_auth_token] does on every mapping. *)
Lemma pop_auth_token_run (endpoint : option string)
    (values : gmap string string) (w : world) :
  pop_auth_token endpoint values w =
  match values !! "auth_token" with
  | Some T => (Ok (delete "auth_token" values), set_g (insert "auth_token" T) w)
  | None => (Raise (KeyError "auth_token"), w)
  end.
Proof.
  unfold pop_auth_token, bind, dict_pop.
  destruct (values !! "auth_token"); reflexivity.
Qed.

(** C2, as stated, fails: on matched values without the key
    ["auth_token"] the preprocessor raises [KeyError] instead of yielding
    the token [None]. *)
Lemma pop_auth_token_without_key_raises :
  ({[ "book_uuid" := "c0ffee" ]} : gmap string string) !! "auth_token" = None /\
  pop_auth_token (Some "kobo.HandleMetadataRequest") {[ "book_uuid" := "c0ffee" ]}
                 (sample_world ∅ [alice_token])
  = (Raise (KeyError "auth_token"), sample_world ∅ [alice_token]).
Proof. split; reflexivity. Qed.

(** C2, amended.  The extraction succeeds exactly when the key
    ["auth_token"] is in the mapping: its value is stashed as
    [g.auth_token] and the remaining values are the mapping without the
    key.  Without the key it raises [KeyError("auth_token")], and neither
    the mapping nor [g] is changed. *)
Theorem pop_auth_token_spec :
  forall (endpoint : option string) (values : gmap string string) (w : world),
    match values !! "auth_token" with
    | Some T =>
      exists w',
        pop_auth_token endpoint values w = (Ok (delete "auth_token" values), w') /\
        g w' !! "auth_token" = Some T /\
        (forall key, key <> "auth_token" ->
                     delete "auth_token" values !! key = values !! key) /\
        delete "auth_token" values !! "auth_token" = None /\
        users w' = users w /\ tokens w' = tokens w /\ trace w' = trace w
    | None =>
      pop_auth_token endpoint values w = (Raise (KeyError "auth_token"), w)
    end.
Proof.
  intros endpoint values w. rewrite pop_auth_token_run.
  destruct (values !! "auth_token") as [T|] eqn:Hv; [|reflexivity].
  eexists. split; [reflexivity|]. simpl. repeat split.
  - apply lookup_insert_eq.
  - intros key Hkey. now apply lookup_delete_ne.
  - apply lookup_delete_eq.
Qed.

(** ** Revoking *)

Lemma selected_iff (user type : Z) (t : ub.RemoteAuthToken) :
  selected user type t = true <-> ub.user_id t = user /\ ub.token_type t = type.
Proof. unfold selected. rewrite andb_true_iff, !Z.eqb_eq. tauto. Qed.

Lemma delete_rows_filter (user type : Z) (ts : list ub.RemoteAuthToken) :
  delete_rows user type ts = List.filter (fun t => negb (selected user type t)) ts.
Proof.
  induction ts as [|t ts IH]; simpl; [reflexivity|].
  unfold selected at 1. destruct (_ && _); simpl; now rewrite IH.
Qed.

Lemma in_delete_rows (user type : Z) (ts : list ub.RemoteAuthToken)
    (t : ub.RemoteAuthToken) :
  In t (delete_rows user type ts) <->
  In t ts /\ ~ (ub.user_id t = user /\ ub.token_type t = type).
Proof.
  rewrite delete_rows_filter, filter_In, negb_true_iff, <- selected_iff.
  destruct (selected user type t); intuition congruence.
Qed.

Lemma delete_rows_none (user type : Z) (ts : list ub.RemoteAuthToken) :
  (forall t, In t ts -> ub.user_id t = user -> ub.token_type t <> type) ->
  delete_rows user type ts = ts.
Proof.
  induction ts as [|t ts IH]; simpl; intros Hno; [reflexivity|].
  destruct (_ && _) eqn:Hsel.
  - apply (selected_iff user type t) in Hsel as [Hu Hty].
    now destruct (Hno t (or_introl eq_refl) Hu).
  - f_equal. apply IH. intros t' Hin. apply Hno. now right.
Qed.

Lemma tokens_of_user_filter (user type : Z) (ts : list ub.RemoteAuthToken) :
  tokens_of_user user type ts = List.filter (selected user type) ts.
Proof.
  unfold tokens_of_user, selected.
  induction ts as [|t ts IH]; simpl; [reflexivity|].
  destruct (ub.user_id t =? user); simpl; [|exact IH].
  destruct (ub.token_type t =? type); now rewrite IH.
Qed.

Lemma tokens_of_user_delete_rows (user type u ty : Z) (ts : list ub.RemoteAuthToken) :
  tokens_of_user u ty (delete_rows user type ts) =
  if (u =? user) && (ty =? type) then [] else tokens_of_user u ty ts.
Proof.
  rewrite !tokens_of_user_filter, delete_rows_filter.
  induction ts as [|t ts IH]; simpl.
  - now destruct (_ && _).
  - destruct (selected user type t) eqn:Hdel; simpl.
    + rewrite IH. destruct ((u =? user) && (ty =? type)) eqn:Hsame; [reflexivity|].
      destruct (selected u ty t) eqn:Hsel; [|reflexivity].
      apply selected_iff in Hdel as [<- <-]. apply selected_iff in Hsel as [<- <-].
      now rewrite !Z.eqb_refl in Hsame.
    + destruct (selected u ty t) eqn:Hsel; rewrite IH;
        destruct ((u =? user) && (ty =? type)) eqn:Hsame; trivial.
      apply andb_true_iff in Hsame as [->%Z.eqb_eq ->%Z.eqb_eq]. congruence.
Qed.

Lemma count_occ_delete_rows (user type : Z) (ts : list ub.RemoteAuthToken)
    (t : ub.RemoteAuthToken) :
  ~ (ub.user_id t = user /\ ub.token_type t = type) ->
  count_occ ub.RemoteAuthToken_eq_dec (delete_rows user type ts) t =
  count_occ ub.RemoteAuthToken_eq_dec ts t.
Proof.
  intros Hkeep. induction ts as [|t' ts IH]; simpl; [reflexivity|].
  destruct (_ && _) eqn:Hsel; simpl.
  - destruct (ub.RemoteAuthToken_eq_dec t' t) as [->|]; [|exact IH].
    apply (selected_iff user type t) in Hsel. contradiction.
  - destruct (ub.RemoteAuthToken_eq_dec t' t); now rewrite IH.
Qed.

Lemma delete_auth_token_run (user : Z) (w : world) :
  delete_auth_token user w =
  (Ok EmptyString, record Commit
            (set_tokens (fun _ => delete_rows user 1 (tokens w))
               (record (DeleteTokensOfUser user 1) w))).
Proof. reflexivity. Qed.

(** C7. Revoking for a user without a token of type 1 raises nothing and
    leaves every table, the request context and the login state as they
    were; the DELETE and the commit are still issued. *)
Theorem revoke_without_token_is_noop :
  forall (w : world) (user : Z),
    (forall row, In row (tokens w) ->
                 ub.user_id row = user -> ub.token_type row <> 1) ->
    exists w',
      delete_auth_token user w = (Ok EmptyString, w') /\
      tokens w' = tokens w /\
      users w' = users w /\
      g w' = g w /\
      current_user w' = current_user w /\
      session_cookie w' = session_cookie w /\
      trace w' = trace w ++ [DeleteTokensOfUser user 1; Commit].
Proof.
  intros w user Hno. rewrite delete_auth_token_run.
  eexists. split; [reflexivity|]. simpl.
  repeat split; trivial.
  - now apply delete_rows_none.
  - now rewrite <- app_assoc.
Qed.

Lemma revoke_without_token_is_noop_witness :
  fst (delete_auth_token 7 (sample_world ∅ [alice_token])) = Ok EmptyString /\
  tokens (exec (delete_auth_token 7) (sample_world ∅ [alice_token])) = [alice_token].
Proof.
  destruct (revoke_without_token_is_noop (sample_world ∅ [alice_token]) 7)
    as (w' & Hrun & Hts & _).
  - intros row [<-|[]] Huser. discriminate Huser.
  - unfold exec. rewrite Hrun. split; [reflexivity|exact Hts].
Defined.

(** C10. Revocation deletes exactly the rows of the given user with
    token type 1.  Every other row stays, as often as it occurred and in
    the same order: the rows of any other [(user_id, token_type)] pair are
    the same list as before.  The user table is not touched. *)
Theorem revoke_frame :
  forall (w : world) (user : Z),
    let w' := exec (delete_auth_token user) w in
    (forall row, In row (tokens w') <->
                 In row (tokens w) /\
                 ~ (ub.user_id row = user /\ ub.token_type row = 1)) /\
    (forall row, ~ (ub.user_id row = user /\ ub.token_type row = 1) ->
                 count_occ ub.RemoteAuthToken_eq_dec (tokens w') row =
                 count_occ ub.RemoteAuthToken_eq_dec (tokens w) row) /\
    (forall u ty, ~ (u = user /\ ty = 1) ->
                  tokens_of_user u ty (tokens w') = tokens_of_user u ty (tokens w)) /\
    tokens_of_user user 1 (tokens w') = [] /\
    users w' = users w.
Proof.
  intros w user w'. subst w'. unfold exec. rewrite delete_auth_token_run. simpl.
  split; [|split; [|split; [|split]]].
  - intros row. apply in_delete_rows.
  - intros row Hkeep. now apply count_occ_delete_rows.
  - intros u ty Hother. rewrite tokens_of_user_delete_rows.
    destruct ((u =? user) && (ty =? 1)) eqn:Hsame; [|reflexivity].
    apply andb_true_iff in Hsame as [->%Z.eqb_eq ->%Z.eqb_eq]. tauto.
  - rewrite tokens_of_user_delete_rows. now rewrite !Z.eqb_refl.
  - reflexivity.
Qed.

(** Once the rows of [U] are deleted, a value that only [U] held with
    type 1 matches no row of type 1. *)
Lemma revoked_value_unmatched (ts : list ub.RemoteAuthToken) (U : Z) (T : string) :
  (forall t, In t ts -> ub.auth_token t = T -> ub.token_type t = 1 ->
             ub.user_id t = U) ->
  forall t, In t (delete_rows U 1 ts) ->
            ub.auth_token t = T -> ub.token_type t <> 1.
Proof.
  intros Honly t Hin Hv Hty.
  apply in_delete_rows in Hin as [Hin Hkeep]. apply Hkeep.
  split; [now apply Honly|exact Hty].
Qed.

(** C6. Let user [U] hold the token [T] of type 1 in a store with unique
    token values.  Revoking for [U] succeeds and ends with the commit; in
    any later request on the resulting token table that presents [T],
    the loader returns no identity and logs nobody in. *)
Theorem revoked_token_resolves_to_nobody :
  forall (Request : Type) (request : Request) (w : world)
         (U : Z) (T : string) (row : ub.RemoteAuthToken),
    unique_token_values (tokens w) ->
    In row (tokens w) ->
    ub.user_id row = U ->
    ub.auth_token row = T ->
    ub.token_type row = 1 ->
    let w1 := exec (delete_auth_token U) w in
    fst (delete_auth_token U w) = Ok EmptyString /\
    last (trace w1) = Some Commit /\
    In (DeleteTokensOfUser U 1) (trace w1) /\
    forall w2,
      tokens w2 = tokens w1 ->
      g w2 !! "auth_token" = Some T ->
      fst (load_user_from_kobo_request request w2) = Ok None /\
      current_user (exec (load_user_from_kobo_request request) w2) = current_user w2.
Proof.
  intros Request request w U T row Huniq Hrow HU HT Hty w1. subst w1.
  unfold exec at 1 2 3. rewrite delete_auth_token_run. simpl.
  split; [reflexivity|]. split; [apply last_snoc|]. split.
  { rewrite in_app_iff. left. rewrite in_app_iff. right. now left. }
  intros w2 Hts Hg.
  assert (Hno : forall t, In t (tokens w2) ->
                          ub.auth_token t = T -> ub.token_type t <> 1).
  { rewrite Hts. apply revoked_value_unmatched.
    intros t Hin Hv _. rewrite <- HU. f_equal.
    apply (NoDup_map_inj ub.auth_token (tokens w)); trivial. congruence. }
  unfold exec. rewrite load_user_run, Hg.
  rewrite (select_user_by_token_none T 1 _ _ Hno). simpl. tauto.
Qed.

Lemma revoked_token_resolves_to_nobody_witness :
  fst (load_user_from_kobo_request tt
         (sample_world {[ "auth_token" := "a1b2c3d4e5f6a7b8c9d0e1f2a3b4c5d6" ]}
            (tokens (exec (delete_auth_token 42) (sample_world ∅ [alice_token])))))
  = Ok None.
Proof.
  destruct (revoked_token_resolves_to_nobody unit tt
              (sample_world ∅ [alice_token]) 42
              "a1b2c3d4e5f6a7b8c9d0e1f2a3b4c5d6" alice_token)
    as (_ & _ & _ & Hlater).
  - apply (bool_decide_unpack _). vm_compute. exact I.
  - simpl. now left.
  - reflexivity.
  - reflexivity.
  - reflexivity.
  - apply Hlater; reflexivity.
Defined.

(** ** Timestamps and hexadecimal encoding *)

Lemma lex_leb_bounded (hi xs : list Z) :
  Forall2 Z.le xs hi -> datetime.lex_leb xs hi = true.
Proof.
  induction 1 as [|x h xs hi Hle _ IH]; simpl; [reflexivity|].
  destruct (Z.ltb_spec x h); simpl; [reflexivity|].
  replace h with x by lia. now rewrite Z.eqb_refl.
Qed.

(** [datetime.max] is the latest representable timestamp. *)
Lemma datetime_max_latest (d : datetime.t) :
  datetime.representable d -> datetime.leb d datetime.max = true.
Proof.
  intros (Hy & Hmo & Hd & Hh & Hmi & Hs & Hus).
  unfold datetime.leb. apply lex_leb_bounded.
  unfold datetime.fields, datetime.max; simpl.
  repeat (apply List.Forall2_cons; [lia|]). apply List.Forall2_nil.
Qed.

Lemma hexlify_length (bs : list byte) :
  length (hexlify bs) = (2 * length bs)%nat.
Proof.
  unfold hexlify. induction bs as [|b bs IH]; simpl; [reflexivity|].
  rewrite IH. lia.
Qed.

Lemma hexlify_byte_digits (b : byte) :
  exists hi lo,
    hexlify_byte b = [byte_of_ascii hi; byte_of_ascii lo] /\
    is_lower_hex hi = true /\ is_lower_hex lo = true /\
    (16 * hex_value hi + hex_value lo)%N = Byte.to_N b.
Proof.
  destruct b; do 2 eexists; (split; [reflexivity|]); vm_compute; auto.
Qed.

Lemma hexlify_lower_hex (bs : list byte) :
  Forall (fun c => is_lower_hex (ascii_of_byte c) = true) (hexlify bs).
Proof.
  unfold hexlify. induction bs as [|b bs IH]; cbn [flat_map]; [constructor|].
  destruct (hexlify_byte_digits b) as (hi & lo & -> & Hhi & Hlo & _).
  cbn [app].
  constructor; [now rewrite ascii_of_byte_of_ascii|].
  constructor; [now rewrite ascii_of_byte_of_ascii|exact IH].
Qed.

Lemma lower_hex_is_ascii (c : byte) :
  is_lower_hex (ascii_of_byte c) = true -> in_range 0 127 c = true.
Proof. destruct c; vm_compute; congruence. Qed.

Lemma ascii_utf8_valid (bs : list byte) :
  Forall (fun c => in_range 0 127 c = true) bs -> utf8_valid bs = true.
Proof.
  induction 1 as [|b bs Hb _ IH]; [reflexivity|].
  cbn [utf8_valid]. now rewrite Hb.
Qed.

(** Decoding the output of [hexlify] never raises. *)
Lemma decode_hexlify (bs : list byte) :
  decode_utf8 (hexlify bs) = Ok (string_of_list_byte (hexlify bs)).
Proof.
  unfold decode_utf8. rewrite ascii_utf8_valid; [reflexivity|].
  eapply Forall_impl; [apply hexlify_lower_hex|].
  intros c. apply lower_hex_is_ascii.
Qed.

Lemma string_of_list_byte_length (bs : list byte) :
  String.length (string_of_list_byte bs) = length bs.
Proof.
  unfold string_of_list_byte.
  induction bs as [|b bs IH]; simpl; [reflexivity|]. now rewrite IH.
Qed.

Lemma string_of_list_byte_chars (bs : list byte) :
  list_ascii_of_string (string_of_list_byte bs) = map ascii_of_byte bs.
Proof.
  unfold string_of_list_byte. now rewrite list_ascii_of_string_of_list_ascii.
Qed.

Lemma fresh_value_length (w : world) : String.length (fresh_value w) = 32%nat.
Proof.
  unfold fresh_value.
  now rewrite string_of_list_byte_length, hexlify_length, length_map, length_seq.
Qed.

Lemma fresh_value_lower_hex (w : world) :
  Forall (fun c => is_lower_hex c = true) (list_ascii_of_string (fresh_value w)).
Proof.
  unfold fresh_value. rewrite string_of_list_byte_chars.
  apply Forall_map. apply hexlify_lower_hex.
Qed.

(** ** Issuing *)

Lemma query_token_by_user_run (user type : Z) (w : world) :
  query_token_by_user user type w =
  (Ok (head (tokens_of_user user type (tokens w))),
   record (SelectTokenByUser user type) w).
Proof. reflexivity. Qed.

(** [generate_auth_token], step by step: the lookup decides between
    showing the stored token and storing a fresh one. *)
Lemma generate_auth_token_run (user : Z) (w : world) :
  generate_auth_token user w =
  let w1 := record (SelectTokenByUser user 1) w in
  match head (tokens_of_user user 1 (tokens w)) with
  | Some row => (Ok (setup_page (ub.auth_token row)), w1)
  | None =>
    (Ok (setup_page (fresh_value w)),
     record Commit
       (set_tokens (fun ts => ts ++ [fresh_row user w])
          (record (Insert (fresh_row user w))
             (set_consumed (consumed w + 16)%nat w1))))
  end.
Proof.
  unfold generate_auth_token.
  rewrite (bind_ok _ _ _ _ _ (query_token_by_user_run user 1 w)).
  destruct (head (tokens_of_user user 1 (tokens w))) as [row|]; [reflexivity|].
  cbv [bind urandom lift]. rewrite decode_hexlify. reflexivity.
Qed.

Lemma head_tokens_of_user (user type : Z) (ts : list ub.RemoteAuthToken)
    (row : ub.RemoteAuthToken) :
  head (tokens_of_user user type ts) = Some row ->
  In row ts /\ ub.user_id row = user /\ ub.token_type row = type.
Proof.
  rewrite tokens_of_user_filter. intros Hhead.
  assert (Hin : In row (List.filter (selected user type) ts)).
  { destruct (List.filter _ ts); [discriminate|]. injection Hhead as ->. now left. }
  apply filter_In in Hin as [Hin Hsel]. apply selected_iff in Hsel. tauto.
Qed.

Lemma tokens_of_user_nil (user type : Z) (ts : list ub.RemoteAuthToken) :
  (forall row, In row ts -> ub.user_id row = user -> ub.token_type row <> type) ->
  tokens_of_user user type ts = [].
Proof.
  intros Hno. destruct (tokens_of_user user type ts) as [|row rest] eqn:Hsel;
    [reflexivity|].
  destruct (head_tokens_of_user user type ts row) as (Hin & Hu & Hty).
  { now rewrite Hsel. }
  now destruct (Hno row Hin Hu).
Qed.

Lemma tokens_of_user_some (user type : Z) (ts : list ub.RemoteAuthToken)
    (row : ub.RemoteAuthToken) :
  In row ts -> ub.user_id row = user -> ub.token_type row = type ->
  exists kept, head (tokens_of_user user type ts) = Some kept.
Proof.
  intros Hin Hu Hty.
  assert (Hsel : In row (tokens_of_user user type ts)).
  { rewrite tokens_of_user_filter. apply filter_In. split; trivial.
    now apply selected_iff. }
  destruct (tokens_of_user user type ts) as [|kept rest]; [destruct Hsel|].
  now exists kept.
Qed.

Lemma tokens_of_user_only (user type : Z) (ts : list ub.RemoteAuthToken)
    (row : ub.RemoteAuthToken) :
  one_token_per_user ts ->
  In row ts -> ub.user_id row = user -> ub.token_type row = type ->
  head (tokens_of_user user type ts) = Some row.
Proof.
  intros Hone Hin Hu Hty. specialize (Hone user type).
  assert (Hsel : In row (tokens_of_user user type ts)).
  { rewrite tokens_of_user_filter. apply filter_In. split; trivial.
    now apply selected_iff. }
  destruct (tokens_of_user user type ts) as [|kept [|other rest]]; simpl in *.
  - destruct Hsel.
  - destruct Hsel as [->|[]]. reflexivity.
  - lia.
Qed.

Lemma tokens_of_user_snoc (user type : Z) (ts : list ub.RemoteAuthToken)
    (row : ub.RemoteAuthToken) :
  tokens_of_user user type (ts ++ [row]) =
  tokens_of_user user type ts ++
  (if selected user type row then [row] else []).
Proof.
  rewrite !tokens_of_user_filter, List.filter_app. simpl.
  now destruct (selected user type row).
Qed.

(** The token table after an issuance. *)
Lemma tokens_after_issue (user : Z) (w : world) :
  tokens (exec (generate_auth_token user) w) =
  match head (tokens_of_user user 1 (tokens w)) with
  | Some _ => tokens w
  | None => tokens w ++ [fresh_row user w]
  end.
Proof.
  unfold exec. rewrite generate_auth_token_run. cbv zeta.
  destruct (head (tokens_of_user user 1 (tokens w))); reflexivity.
Qed.

(** Run an issuance whose lookup result is known. *)
Ltac issue_with Hhead :=
  rewrite generate_auth_token_run; cbv zeta; cbn [tokens record];
  rewrite Hhead.

Lemma issue_preserves_one_token_per_user (user : Z) (w : world) :
  one_token_per_user (tokens w) ->
  one_token_per_user (tokens (exec (generate_auth_token user) w)).
Proof.
  intros Hone. rewrite tokens_after_issue.
  destruct (head (tokens_of_user user 1 (tokens w))) eqn:Hhead; [exact Hone|].
  apply head_None_nil in Hhead. intros u ty.
  rewrite tokens_of_user_snoc, List.length_app.
  destruct (selected u ty (fresh_row user w)) eqn:Hsel; simpl.
  - apply selected_iff in Hsel as [<- <-]. simpl. now rewrite Hhead.
  - specialize (Hone u ty). lia.
Qed.

Lemma revoke_preserves_one_token_per_user (user : Z) (w : world) :
  one_token_per_user (tokens w) ->
  one_token_per_user (tokens (exec (delete_auth_token user) w)).
Proof.
  intros Hone u ty. unfold exec. rewrite delete_auth_token_run. simpl.
  rewrite tokens_of_user_delete_rows.
  destruct (_ && _); [simpl; lia|apply Hone].
Qed.

(** Issuing twice in a row shows the same token both times, whether or
    not the user had a token before; the second call stores nothing. *)
Lemma issue_twice_same_token (user : Z) (w : world) :
  exists value,
    fst (generate_auth_token user w) = Ok (setup_page value) /\
    fst (generate_auth_token user (exec (generate_auth_token user) w)) =
      Ok (setup_page value) /\
    tokens (exec (generate_auth_token user) (exec (generate_auth_token user) w)) =
      tokens (exec (generate_auth_token user) w).
Proof.
  assert (Hsecond : forall w1 kept,
             head (tokens_of_user user 1 (tokens w1)) = Some kept ->
             fst (generate_auth_token user w1) = Ok (setup_page (ub.auth_token kept)) /\
             tokens (exec (generate_auth_token user) w1) = tokens w1).
  { intros w1 kept Hhead. rewrite tokens_after_issue, Hhead.
    now issue_with Hhead. }
  destruct (head (tokens_of_user user 1 (tokens w))) as [kept|] eqn:Hhead.
  - exists (ub.auth_token kept).
    destruct (Hsecond w kept Hhead) as [Hfst Hts].
    destruct (Hsecond (exec (generate_auth_token user) w) kept) as [Hfst2 Hts2].
    { now rewrite Hts. }
    tauto.
  - exists (fresh_value w).
    assert (Hhead1 : head (tokens_of_user user 1
                             (tokens (exec (generate_auth_token user) w)))
                     = Some (fresh_row user w)).
    { rewrite tokens_after_issue, Hhead, tokens_of_user_snoc.
      rewrite (head_None_nil _ Hhead). unfold selected. simpl.
      now rewrite Z.eqb_refl. }
    destruct (Hsecond _ _ Hhead1) as [Hfst2 Hts2].
    split; [|tauto].
    now issue_with Hhead.
Qed.

(** C3. For a user who already has a token of type 1, [generate_auth_token]
    shows the value of a stored row of that user (the very row, when the
    store holds one row per user and type): nothing is drawn from the
    random source, nothing is inserted or committed, the token table is
    unchanged.  Issuing again right after shows the identical value. *)
Theorem issue_is_idempotent :
  forall (w : world) (user : Z) (row : ub.RemoteAuthToken),
    In row (tokens w) ->
    ub.user_id row = user ->
    ub.token_type row = 1 ->
    exists kept w',
      In kept (tokens w) /\ ub.user_id kept = user /\ ub.token_type kept = 1 /\
      (one_token_per_user (tokens w) -> kept = row) /\
      generate_auth_token user w = (Ok (setup_page (ub.auth_token kept)), w') /\
      tokens w' = tokens w /\
      users w' = users w /\
      consumed w' = consumed w /\
      trace w' = trace w ++ [SelectTokenByUser user 1] /\
      fst (generate_auth_token user w') = Ok (setup_page (ub.auth_token kept)) /\
      tokens (exec (generate_auth_token user) w') = tokens w.
Proof.
  intros w user row Hin Hu Hty.
  destruct (tokens_of_user_some user 1 (tokens w) row Hin Hu Hty) as [kept Hhead].
  destruct (head_tokens_of_user user 1 (tokens w) kept Hhead) as (Hkin & Hku & Hkty).
  exists kept, (record (SelectTokenByUser user 1) w).
  repeat split; trivial.
  - intros Hone.
    pose proof (tokens_of_user_only user 1 (tokens w) row Hone Hin Hu Hty) as Hrow.
    congruence.
  - now issue_with Hhead.
  - now issue_with Hhead.
  - rewrite tokens_after_issue. cbn [tokens record]. now rewrite Hhead.
Qed.

Lemma issue_is_idempotent_witness :
  fst (generate_auth_token 42 (sample_world ∅ [alice_token]))
  = Ok (setup_page "a1b2c3d4e5f6a7b8c9d0e1f2a3b4c5d6").
Proof.
  destruct (issue_is_idempotent (sample_world ∅ [alice_token]) 42 alice_token)
    as (kept & w' & [Hin|[]] & _ & _ & _ & Hrun & _).
  - simpl. now left.
  - reflexivity.
  - reflexivity.
  - rewrite Hrun, <- Hin. reflexivity.
Defined.

(** C4. For a user without a token of type 1, [generate_auth_token]
    draws 16 bytes from the random source and appends exactly one row to
    the token table, inserted and committed: it belongs to the user, has
    type 1, expires at [datetime.max] (the latest representable
    timestamp), and its value is the hex encoding of the 16 bytes, a
    string of 32 lower-case hexadecimal digits.  The page shows it. *)
Theorem issue_creates_one_token :
  forall (w : world) (user : Z),
    (forall row, In row (tokens w) ->
                 ub.user_id row = user -> ub.token_type row <> 1) ->
    exists (random : list byte) (row : ub.RemoteAuthToken) (w' : world),
      generate_auth_token user w = (Ok (setup_page (ub.auth_token row)), w') /\
      tokens w' = tokens w ++ [row] /\
      users w' = users w /\
      trace w' = trace w ++ [SelectTokenByUser user 1; Insert row; Commit] /\
      random = map (entropy w) (seq (consumed w) 16) /\
      length random = 16%nat /\
      consumed w' = (consumed w + 16)%nat /\
      ub.user_id row = user /\
      ub.token_type row = 1 /\
      ub.expiration row = datetime.max /\
      (forall d, datetime.representable d ->
                 datetime.leb d (ub.expiration row) = true) /\
      ub.auth_token row = string_of_list_byte (hexlify random) /\
      String.length (ub.auth_token row) = 32%nat /\
      Forall (fun c => is_lower_hex c = true)
             (list_ascii_of_string (ub.auth_token row)).
Proof.
  intros w user Hno.
  exists (map (entropy w) (seq (consumed w) 16)), (fresh_row user w).
  eexists. split.
  { issue_with (tokens_of_user_nil user 1 (tokens w) Hno). reflexivity. }
  cbn [tokens users trace consumed record set_tokens set_consumed fresh_row
       ub.user_id ub.token_type ub.expiration ub.auth_token].
  split_and!;
    [reflexivity
    |reflexivity
    |now rewrite <- !app_assoc
    |reflexivity
    |now rewrite length_map, length_seq
    |reflexivity..
    |intros d; apply datetime_max_latest
    |reflexivity
    |apply fresh_value_length
    |apply fresh_value_lower_hex].
Qed.

Lemma issue_creates_one_token_witness :
  tokens (exec (generate_auth_token 7) (sample_world ∅ [alice_token]))
  = [alice_token;
     ub.mkToken 7 datetime.max "3c3c3c3c3c3c3c3c3c3c3c3c3c3c3c3c" 1].
Proof.
  destruct (issue_creates_one_token (sample_world ∅ [alice_token]) 7)
    as (random & row & w' & Hrun & Hts & _ & _ & -> & _ & _ & Hu & Hty & Hexp & _ & Hv & _).
  - intros row [<-|[]] Huser. discriminate Huser.
  - unfold exec. rewrite Hrun. simpl. rewrite Hts. simpl. f_equal.
    destruct row as [u e v ty]. simpl in *. subst. reflexivity.
Defined.

(** ** The invariant of the token table *)

Lemma run_op_preserves_one_token_per_user (o : op) (w : world) :
  one_token_per_user (tokens w) -> one_token_per_user (tokens (run_op o w)).
Proof.
  destruct o as [user|user]; simpl.
  - apply issue_preserves_one_token_per_user.
  - apply revoke_preserves_one_token_per_user.
Qed.

(** C5. A token table with at most one row per [(user_id, token_type)]
    keeps this property through every sequence of issuances and
    revocations; issuing for a user who has a token of type 1 adds no
    row at all. *)
Theorem one_token_per_user_invariant :
  forall (os : list op) (w : world),
    one_token_per_user (tokens w) ->
    one_token_per_user (tokens (run_ops os w)) /\
    (forall user row,
        In row (tokens w) -> ub.user_id row = user -> ub.token_type row = 1 ->
        tokens (run_op (Issue user) w) = tokens w).
Proof.
  intros os w Hone. split.
  - revert w Hone. unfold run_ops.
    induction os as [|o os IH]; intros w Hone; simpl; [exact Hone|].
    apply IH. now apply run_op_preserves_one_token_per_user.
  - intros user row Hin Hu Hty. simpl. rewrite tokens_after_issue.
    destruct (tokens_of_user_some user 1 (tokens w) row Hin Hu Hty) as [kept ->].
    reflexivity.
Qed.

Lemma one_token_per_user_invariant_witness :
  one_token_per_user
    (tokens (run_ops [Issue 42; Issue 7; Issue 42; Revoke 42; Issue 42; Issue 7]
                     (sample_world ∅ [alice_token]))).
Proof.
  apply (one_token_per_user_invariant
           [Issue 42; Issue 7; Issue 42; Revoke 42; Issue 42; Issue 7]
           (sample_world ∅ [alice_token])).
  intros user type. rewrite tokens_of_user_filter.
  apply (Nat.le_trans _ _ _ (List.filter_length_le _ _)). simpl. lia.
Defined.

(** ** A run of the whole life cycle *)

Example hexlify_bytes :
  string_of_list_byte (hexlify [Byte.x00; Byte.xff; Byte.xa1; Byte.x3c]) = "00ffa13c".
Proof. reflexivity. Qed.

Example utf8_valid_samples :
  utf8_valid [Byte.xc3; Byte.xa9] = true /\
  utf8_valid [Byte.xe2; Byte.x82; Byte.xac] = true /\
  utf8_valid [Byte.xf0; Byte.x9f; Byte.x98; Byte.x80] = true /\
  utf8_valid [Byte.xc3] = false /\
  utf8_valid [Byte.xc0; Byte.x80] = false /\
  utf8_valid [Byte.xed; Byte.xa0; Byte.x80] = false /\
  utf8_valid [Byte.xff] = false.
Proof. repeat split; reflexivity. Qed.

(** User 42 issues a token, a request presenting it resolves to user 42,
    and after the revocation the same request resolves to nobody. *)
Example issue_resolve_revoke :
  let T := "3c3c3c3c3c3c3c3c3c3c3c3c3c3c3c3c" in
  let request_with (w : world) := set_g (fun _ => {[ "auth_token" := T ]}) w in
  let w1 := exec (generate_auth_token 42) (sample_world ∅ []) in
  let w2 := exec (delete_auth_token 42) w1 in
  fst (generate_auth_token 42 (sample_world ∅ [])) = Ok (setup_page T) /\
  tokens w1 = [ub.mkToken 42 datetime.max T 1] /\
  fst (load_user_from_kobo_request tt (request_with w1)) = Ok (Some alice) /\
  tokens w2 = [] /\
  fst (load_user_from_kobo_request tt (request_with w2)) = Ok None.
Proof. repeat split; reflexivity. Qed.

(** * Further properties of the module *)

(** ** From the URL to the identity *)

(** X1. What the preprocessor stashes is what [get_auth_token] reads
    back, whatever [g] held before. *)
Theorem stashed_token_is_read_back :
  forall (endpoint : option string) (values : gmap string string)
         (w : world) (T : string),
    values !! "auth_token" = Some T ->
    (pop_auth_token endpoint values ;; get_auth_token)%py w
    = (Ok (Some T), set_g (insert "auth_token" T) w).
Proof.
  intros endpoint values w T Hv.
  erewrite bind_ok; [|rewrite pop_auth_token_run, Hv; reflexivity].
  rewrite get_auth_token_run. cbn [g set_g].
  now rewrite lookup_insert_eq.
Qed.

Lemma stashed_token_is_read_back_witness :
  fst ((pop_auth_token None {[ "auth_token" := "a1b2c3d4e5f6a7b8c9d0e1f2a3b4c5d6" ]} ;;
        get_auth_token)%py
         (sample_world {[ "auth_token" := "stale" ]} []))
  = Ok (Some "a1b2c3d4e5f6a7b8c9d0e1f2a3b4c5d6").
Proof.
  rewrite (stashed_token_is_read_back None
             {[ "auth_token" := "a1b2c3d4e5f6a7b8c9d0e1f2a3b4c5d6" ]}
             (sample_world {[ "auth_token" := "stale" ]} [])
             "a1b2c3d4e5f6a7b8c9d0e1f2a3b4c5d6").
  - reflexivity.
  - reflexivity.
Defined.

(** X3. Preprocessor, then loader: a request whose URL carries the
    token of a stored row of type 1 is resolved to the owner of the row,
    whatever [g] held before. *)
Theorem request_with_valid_token_resolves :
  forall (Request : Type) (request : Request) (endpoint : option string)
         (values : gmap string string) (w : world)
         (U : ub.User) (row : ub.RemoteAuthToken),
    values !! "auth_token" = Some (ub.auth_token row) ->
    unique_user_ids (users w) ->
    unique_token_values (tokens w) ->
    In U (users w) ->
    In row (tokens w) ->
    ub.token_type row = 1 ->
    ub.user_id row = ub.id U ->
    exists w',
      (pop_auth_token endpoint values ;; load_user_from_kobo_request request)%py w
      = (Ok (Some U), w') /\
      current_user w' = Some U /\
      g w' !! "auth_token" = Some (ub.auth_token row) /\
      tokens w' = tokens w.
Proof.
  intros Request request endpoint values w U row Hv Hus Hts HU Hrow Hty Hid.
  erewrite bind_ok; [|rewrite pop_auth_token_run, Hv; reflexivity].
  rewrite load_user_run. cbn [g set_g users tokens].
  rewrite lookup_insert_eq.
  rewrite (select_user_by_token_owner _ 1 _ _ U row Hus Hts HU Hrow Hid eq_refl Hty).
  eexists. split; [reflexivity|]. cbn. split_and!; trivial.
  apply lookup_insert_eq.
Qed.

Lemma request_with_valid_token_resolves_witness :
  fst ((pop_auth_token None {[ "auth_token" := "a1b2c3d4e5f6a7b8c9d0e1f2a3b4c5d6" ]} ;;
        load_user_from_kobo_request tt)%py (sample_world ∅ [alice_token]))
  = Ok (Some alice).
Proof.
  destruct (request_with_valid_token_resolves unit tt None
              {[ "auth_token" := "a1b2c3d4e5f6a7b8c9d0e1f2a3b4c5d6" ]}
              (sample_world ∅ [alice_token]) alice alice_token)
    as (w' & Hrun & _).
  - reflexivity.
  - apply (bool_decide_unpack _). vm_compute. exact I.
  - apply (bool_decide_unpack _). vm_compute. exact I.
  - simpl. now left.
  - simpl. now left.
  - reflexivity.
  - reflexivity.
  - rewrite Hrun. reflexivity.
Defined.

(** X4. The loader never invents an identity: a user it returns is a
    row of the user table that owns a stored token row of type 1 whose
    value is the stashed token, and that user is the one logged in. *)
Theorem resolved_user_owns_the_token :
  forall (Request : Type) (request : Request) (w w' : world) (u : ub.User),
    load_user_from_kobo_request request w = (Ok (Some u), w') ->
    exists (T : string) (row : ub.RemoteAuthToken),
      g w !! "auth_token" = Some T /\
      In u (users w) /\
      In row (tokens w) /\
      ub.user_id row = ub.id u /\
      ub.auth_token row = T /\
      ub.token_type row = 1 /\
      current_user w' = Some u /\
      session_cookie w' = Some (ub.id u).
Proof.
  intros Request request w w' u. rewrite load_user_run.
  destruct (g w !! "auth_token") as [T|]; [|discriminate].
  cbv zeta.
  destruct (select_user_by_token T 1 (users w) (tokens w)) as [v|] eqn:Hsel;
    [|discriminate].
  intros [= -> <-].
  apply select_user_by_token_sound in Hsel as (row & Hu & Hrow & Hid & Hv & Hty).
  exists T, row. cbn. tauto.
Qed.

Lemma resolved_user_owns_the_token_witness :
  exists row, In row [alice_token] /\ ub.user_id row = ub.id alice.
Proof.
  destruct (resolved_user_owns_the_token unit tt
              (sample_world {[ "auth_token" := "a1b2c3d4e5f6a7b8c9d0e1f2a3b4c5d6" ]}
                            [alice_token])
              (snd (load_user_from_kobo_request tt
                      (sample_world {[ "auth_token" := "a1b2c3d4e5f6a7b8c9d0e1f2a3b4c5d6" ]}
                                    [alice_token])))
              alice)
    as (T & row & _ & _ & Hrow & Hid & _).
  - reflexivity.
  - exists row. split; [exact Hrow|exact Hid].
Defined.

(** X5. The loader only reads.  For every world it returns normally,
    leaves [g], both tables and the random source alone and records no
    event that writes the store.  It ends with the login of the user it
    returns, or else with the diagnostic log line and the login state
    it found. *)
Theorem loader_only_reads :
  forall (Request : Type) (request : Request) (w : world),
  exists (r : option ub.User) (w' : world) (evs : list event),
    load_user_from_kobo_request request w = (Ok r, w') /\
    g w' = g w /\ users w' = users w /\ tokens w' = tokens w /\
    consumed w' = consumed w /\
    trace w' = trace w ++ evs /\
    Forall (fun ev => writes_store ev = false) evs /\
    match r with
    | Some u =>
      last evs = Some (LoginUser u) /\ current_user w' = Some u
    | None =>
      last evs = Some (LogInfo no_token_message) /\
      current_user w' = current_user w /\
      session_cookie w' = session_cookie w
    end.
Proof.
  intros Request request w. rewrite load_user_run.
  destruct (g w !! "auth_token") as [T|];
    [cbv zeta;
     destruct (select_user_by_token T 1 (users w) (tokens w)) as [u|];
     [exists (Some u); eexists; exists [SelectUserByToken T 1; LoginUser u]
     |exists None; eexists;
      exists [SelectUserByToken T 1; LogInfo no_token_message]]
    |exists None; eexists; exists [LogInfo no_token_message]];
    (split; [reflexivity|]); cbn; split_and!; trivial;
    try (now rewrite <- app_assoc); repeat constructor.
Qed.

Lemma filter_map_comm {A B : Type} (p : B -> bool) (h : A -> B) (l : list A) :
  List.filter p (map h l) = map h (List.filter (fun a => p (h a)) l).
Proof.
  induction l as [|a l IH]; simpl; [reflexivity|].
  destruct (p (h a)); simpl; now rewrite IH.
Qed.

Lemma join_expiring (f : ub.RemoteAuthToken -> datetime.t)
    (us : list ub.User) (ts : list ub.RemoteAuthToken) :
  ub.join us (map (expiring f) ts) =
  map (fun r => (fst r, expiring f (snd r))) (ub.join us ts).
Proof.
  unfold ub.join. induction us as [|u us IH]; simpl; [reflexivity|].
  rewrite IH, map_app. f_equal.
  rewrite filter_map_comm, !map_map. reflexivity.
Qed.

Lemma select_user_by_token_expiring (f : ub.RemoteAuthToken -> datetime.t)
    (value : string) (type : Z) (us : list ub.User) (ts : list ub.RemoteAuthToken) :
  select_user_by_token value type us (map (expiring f) ts) =
  select_user_by_token value type us ts.
Proof.
  unfold select_user_by_token.
  rewrite join_expiring, !filter_map_comm. simpl.
  now destruct (List.filter _ _).
Qed.

(** X6. The loader never looks at [expiration]: whatever expiry dates
    the rows of the token table carry, even past ones, the request is
    resolved to the same identity. *)
Theorem loader_ignores_expiration :
  forall (Request : Type) (request : Request) (w : world)
         (f : ub.RemoteAuthToken -> datetime.t),
    fst (load_user_from_kobo_request request (set_tokens (map (expiring f)) w))
    = fst (load_user_from_kobo_request request w).
Proof.
  intros Request request w f. rewrite !load_user_run. cbn [g users tokens set_tokens].
  destruct (g w !! "auth_token") as [T|]; [|reflexivity].
  cbv zeta. rewrite select_user_by_token_expiring.
  now destruct (select_user_by_token T 1 (users w) (tokens w)).
Qed.

(** X7. A token row whose owner is not in the user table authenticates
    nobody: when no user has the [id] of a row matching the stashed
    token, the loader returns no identity and logs nobody in. *)
Theorem orphan_token_resolves_to_nobody :
  forall (Request : Type) (request : Request) (w : world) (T : string),
    g w !! "auth_token" = Some T ->
    (forall row u, In row (tokens w) -> In u (users w) ->
                   ub.auth_token row = T -> ub.token_type row = 1 ->
                   ub.user_id row <> ub.id u) ->
    fst (load_user_from_kobo_request request w) = Ok None /\
    current_user (exec (load_user_from_kobo_request request) w) = current_user w.
Proof.
  intros Request request w T Hg Horphan. unfold exec.
  rewrite load_user_run, Hg. cbv zeta.
  destruct (select_user_by_token T 1 (users w) (tokens w)) as [u|] eqn:Hsel.
  - apply select_user_by_token_sound in Hsel as (row & Hu & Hrow & Hid & Hv & Hty).
    now destruct (Horphan row u Hrow Hu Hv Hty).
  - split; reflexivity.
Qed.

Lemma orphan_token_resolves_to_nobody_witness :
  fst (load_user_from_kobo_request tt
         (sample_world {[ "auth_token" := "0123456789abcdef0123456789abcdef" ]}
            [alice_token;
             ub.mkToken 99 datetime.max "0123456789abcdef0123456789abcdef" 1]))
  = Ok None.
Proof.
  apply (orphan_token_resolves_to_nobody unit tt
           (sample_world {[ "auth_token" := "0123456789abcdef0123456789abcdef" ]}
              [alice_token;
               ub.mkToken 99 datetime.max "0123456789abcdef0123456789abcdef" 1])
           "0123456789abcdef0123456789abcdef").
  - reflexivity.
  - intros row u [<-|[<-|[]]] [<-|[<-|[]]] Hv Hty; simpl in *; try discriminate.
Defined.

(** ** The token value and the random bytes *)

Lemma hexlify_byte_inj (a b : byte) : hexlify_byte a = hexlify_byte b -> a = b.
Proof.
  destruct (hexlify_byte_digits a) as (ha & la & -> & _ & _ & Ha).
  destruct (hexlify_byte_digits b) as (hb & lb & -> & _ & _ & Hb).
  intros [= Hh Hl].
  apply (f_equal ascii_of_byte) in Hh, Hl.
  rewrite !ascii_of_byte_of_ascii in Hh, Hl. subst hb lb.
  assert (Hsome : Some a = Some b); [|now injection Hsome].
  rewrite <- (Byte.of_to_N a), <- (Byte.of_to_N b). congruence.
Qed.

Lemma hexlify_inj (a b : list byte) : hexlify a = hexlify b -> a = b.
Proof.
  unfold hexlify. revert b.
  induction a as [|x a IH]; intros [|y b]; cbn [flat_map]; trivial.
  - destruct (hexlify_byte_digits y) as (h & l & -> & _). discriminate.
  - destruct (hexlify_byte_digits x) as (h & l & -> & _). discriminate.
  - intros Heq.
    destruct (hexlify_byte_digits x) as (hx & lx & Hx & _).
    destruct (hexlify_byte_digits y) as (hy & ly & Hy & _).
    rewrite Hx, Hy in Heq. injection Heq as Hh Hl Hrest.
    f_equal; [|now apply IH].
    apply hexlify_byte_inj. rewrite Hx, Hy. congruence.
Qed.

Lemma string_of_list_byte_inj (a b : list byte) :
  string_of_list_byte a = string_of_list_byte b -> a = b.
Proof.
  intros Heq. apply (f_equal list_byte_of_string) in Heq.
  now rewrite !list_byte_of_string_of_list_byte in Heq.
Qed.

(** X8. Encoding loses nothing: [hexlify(...).decode("utf-8")] never
    raises, and two byte strings get the same text only when they are
    the same bytes. *)
Theorem hex_text_determines_bytes :
  forall (a b : list byte),
    (exists text, decode_utf8 (hexlify a) = Ok text) /\
    (decode_utf8 (hexlify a) = decode_utf8 (hexlify b) <-> a = b).
Proof.
  intros a b. rewrite !decode_hexlify. split; [eauto|]. split.
  - intros [= Heq]. now apply hexlify_inj, string_of_list_byte_inj.
  - now intros ->.
Qed.

(** The world after a first issuance. *)
Lemma issue_fresh_world (user : Z) (w : world) :
  head (tokens_of_user user 1 (tokens w)) = None ->
  generate_auth_token user w =
  (Ok (setup_page (fresh_value w)),
   record Commit
     (set_tokens (fun ts => ts ++ [fresh_row user w])
        (record (Insert (fresh_row user w))
           (set_consumed (consumed w + 16)%nat
              (record (SelectTokenByUser user 1) w))))).
Proof. intros Hhead. now issue_with Hhead. Qed.

(** ** Issuing and revoking together *)

(** X10. The page never shows a token that is not in the table: when
    [generate_auth_token] returns a page for a user id the database can
    hold (a signed 64-bit integer), the token in its URL is the value
    of the first stored row of type 1 of that user.  A failure of the
    store is outside this statement. *)
Theorem issue_shows_a_stored_token :
  forall (w w' : world) (user : Z) (p : page),
    0 <= user < 2 ^ 63 ->
    generate_auth_token user w = (Ok p, w') ->
    exists (row : ub.RemoteAuthToken),
      p = setup_page (ub.auth_token row) /\
      head (tokens_of_user user 1 (tokens w')) = Some row /\
      In row (tokens w') /\
      ub.user_id row = user /\
      ub.token_type row = 1.
Proof.
  intros w w' user p _.
  destruct (head (tokens_of_user user 1 (tokens w))) as [kept|] eqn:Hhead.
  - issue_with Hhead. intros [= <- <-]. exists kept.
    cbn [tokens record]. split; [reflexivity|]. split; [exact Hhead|].
    now apply head_tokens_of_user.
  - rewrite (issue_fresh_world user w Hhead). intros [= <- <-].
    exists (fresh_row user w).
    cbn [tokens record set_tokens set_consumed].
    assert (Hnew : head (tokens_of_user user 1 (tokens w ++ [fresh_row user w]))
                   = Some (fresh_row user w)).
    { rewrite tokens_of_user_snoc, (head_None_nil _ Hhead).
      unfold selected. cbn. now rewrite Z.eqb_refl. }
    split; [reflexivity|]. split; [exact Hnew|].
    now apply head_tokens_of_user.
Qed.

Lemma issue_shows_a_stored_token_witness :
  exists row,
    In row (tokens (exec (generate_auth_token 7) (sample_world ∅ [alice_token]))) /\
    ub.user_id row = 7 /\
    fst (generate_auth_token 7 (sample_world ∅ [alice_token]))
    = Ok (setup_page (ub.auth_token row)).
Proof.
  destruct (issue_shows_a_stored_token
              (sample_world ∅ [alice_token])
              (exec (generate_auth_token 7) (sample_world ∅ [alice_token]))
              7 (setup_page "3c3c3c3c3c3c3c3c3c3c3c3c3c3c3c3c"))
    as (row & Hpage & _ & Hin & Huser & _).
  - lia.
  - reflexivity.
  - exists row. split; [exact Hin|]. split; [exact Huser|].
    rewrite <- Hpage. reflexivity.
Defined.

Lemma fresh_row_shape (user : Z) (w : world) : issued_shape (fresh_row user w).
Proof.
  unfold issued_shape, fresh_row.
  cbn [ub.token_type ub.expiration ub.auth_token].
  split_and!; [reflexivity|reflexivity
              |apply fresh_value_length|apply fresh_value_lower_hex].
Qed.

(** X11. Issuing never removes or alters a row.  The table after
    [generate_auth_token] is the old table followed by at most one new
    row, which belongs to the user and has the shape of an issued
    token; 16 bytes of the random source are used per row added; the
    user table and the login state are untouched. *)
Theorem issue_only_appends :
  forall (w : world) (user : Z),
  exists (added : list ub.RemoteAuthToken),
    tokens (exec (generate_auth_token user) w) = tokens w ++ added /\
    (length added <= 1)%nat /\
    Forall (fun t => ub.user_id t = user /\ issued_shape t) added /\
    consumed (exec (generate_auth_token user) w)
    = (consumed w + 16 * length added)%nat /\
    users (exec (generate_auth_token user) w) = users w /\
    current_user (exec (generate_auth_token user) w) = current_user w /\
    session_cookie (exec (generate_auth_token user) w) = session_cookie w.
Proof.
  intros w user. unfold exec.
  destruct (head (tokens_of_user user 1 (tokens w))) as [kept|] eqn:Hhead.
  - exists []. issue_with Hhead. cbn.
    rewrite app_nil_r. split_and!; trivial; first [lia | constructor].
  - exists [fresh_row user w]. rewrite (issue_fresh_world user w Hhead).
    cbn [snd tokens users consumed current_user session_cookie
         record set_tokens set_consumed length].
    split_and!; trivial.
    constructor; [|constructor].
    split; [reflexivity|apply fresh_row_shape].
Qed.

(** X12. Revoking and then issuing rotates the secret: all former rows
    of type 1 of the user are gone, 16 new random bytes are drawn, and
    the single row of type 1 the user then has carries the new value,
    the one the page shows.  Rows of other users stay. *)
Theorem revoke_then_issue_rotates :
  forall (w : world) (user : Z),
    let w1 := exec (delete_auth_token user) w in
    let w2 := exec (generate_auth_token user) w1 in
    fst (generate_auth_token user w1) = Ok (setup_page (fresh_value w)) /\
    tokens w2 = delete_rows user 1 (tokens w) ++ [fresh_row user w] /\
    tokens_of_user user 1 (tokens w2) = [fresh_row user w] /\
    consumed w2 = (consumed w + 16)%nat /\
    (forall u ty, ~ (u = user /\ ty = 1) ->
                  tokens_of_user u ty (tokens w2) = tokens_of_user u ty (tokens w)).
Proof.
  intros w user w1 w2.
  assert (Hnil : tokens_of_user user 1 (tokens w1) = []).
  { subst w1. unfold exec. rewrite delete_auth_token_run.
    cbn [snd tokens record set_tokens].
    rewrite tokens_of_user_delete_rows. now rewrite !Z.eqb_refl. }
  assert (Hhead : head (tokens_of_user user 1 (tokens w1)) = None)
    by now rewrite Hnil.
  assert (Hfresh : fresh_row user w1 = fresh_row user w) by reflexivity.
  assert (Hts1 : tokens w1 = delete_rows user 1 (tokens w)) by reflexivity.
  subst w2. unfold exec at 1 2 3 4.
  rewrite (issue_fresh_world user w1 Hhead).
  cbn [fst snd tokens consumed record set_tokens set_consumed].
  rewrite Hfresh, Hts1. split_and!; trivial.
  - rewrite tokens_of_user_snoc, <- Hts1, Hnil.
    unfold selected. cbn. now rewrite Z.eqb_refl.
  - intros u ty Hother.
    rewrite tokens_of_user_snoc, tokens_of_user_delete_rows.
    destruct (selected u ty (fresh_row user w)) eqn:Hsel.
    + apply selected_iff in Hsel as [Hu Hty].
      cbn [fresh_row ub.user_id ub.token_type] in Hu, Hty.
      destruct Hother. now split.
    + rewrite app_nil_r.
      destruct ((u =? user) && (ty =? 1)) eqn:Hsame; [|reflexivity].
      apply andb_true_iff in Hsame as [->%Z.eqb_eq ->%Z.eqb_eq]. tauto.
Qed.

(** X13. Revoking is idempotent on the token table, and revocations
    for two users commute. *)
Theorem revoke_idempotent_and_commutes :
  forall (w : world) (a b : Z),
    tokens (exec (delete_auth_token a) (exec (delete_auth_token a) w))
    = tokens (exec (delete_auth_token a) w) /\
    tokens (exec (delete_auth_token a) (exec (delete_auth_token b) w))
    = tokens (exec (delete_auth_token b) (exec (delete_auth_token a) w)).
Proof.
  intros w a b. unfold exec. rewrite !delete_auth_token_run. cbn.
  rewrite !delete_rows_filter. split.
  - induction (tokens w) as [|t ts IH]; simpl; [reflexivity|].
    destruct (selected a 1 t) eqn:Hsel; simpl; [exact IH|].
    rewrite Hsel. simpl. now rewrite IH.
  - induction (tokens w) as [|t ts IH]; simpl; [reflexivity|].
    destruct (selected a 1 t) eqn:Ha, (selected b 1 t) eqn:Hb; simpl;
      rewrite ?Ha, ?Hb; simpl; now rewrite IH.
Qed.

(** ** Invariants of the token table *)

Lemma in_map_delete_rows (user type : Z) (ts : list ub.RemoteAuthToken) (v : string) :
  In v (map ub.auth_token (delete_rows user type ts)) ->
  In v (map ub.auth_token ts).
Proof.
  rewrite !in_map_iff. intros (t & Hv & Hin).
  apply in_delete_rows in Hin as [Hin _]. eauto.
Qed.

Lemma delete_rows_unique (user type : Z) (ts : list ub.RemoteAuthToken) :
  unique_token_values ts -> unique_token_values (delete_rows user type ts).
Proof.
  unfold unique_token_values.
  induction ts as [|t ts IH]; simpl; [trivial|].
  intros [Hnotin Hnd]%NoDup_cons. rewrite list_elem_of_In in Hnotin.
  destruct (_ && _); [now apply IH|]. simpl.
  apply NoDup_cons. split; [|now apply IH].
  rewrite list_elem_of_In. intros Hin. apply Hnotin.
  now apply in_map_delete_rows in Hin.
Qed.

Lemma snoc_unique (ts : list ub.RemoteAuthToken) (t : ub.RemoteAuthToken) :
  unique_token_values (ts ++ [t]) <->
  unique_token_values ts /\ ~ In (ub.auth_token t) (map ub.auth_token ts).
Proof.
  unfold unique_token_values. rewrite map_app. simpl. rewrite NoDup_app.
  split.
  - intros (Hnd & Hdisj & _). split; [exact Hnd|].
    intros Hin. apply (Hdisj (ub.auth_token t)).
    + now apply list_elem_of_In.
    + apply list_elem_of_In. now left.
  - intros [Hnd Hnotin]. split_and!; [exact Hnd| |].
    + intros v Hv Hv'. apply list_elem_of_In in Hv, Hv'.
      destruct Hv' as [<-|[]]. contradiction.
    + apply NoDup_singleton.
Qed.

(** X14. Uniqueness of token values.  Revoking keeps it; so does
    issuing for a user who has a token; and so does a first issuance
    whose drawn value is not stored already. *)
Theorem unique_token_values_after_operations :
  forall (w : world) (user : Z),
    unique_token_values (tokens w) ->
    unique_token_values (tokens (exec (delete_auth_token user) w)) /\
    (head (tokens_of_user user 1 (tokens w)) <> None ->
     unique_token_values (tokens (exec (generate_auth_token user) w))) /\
    (~ In (fresh_value w) (map ub.auth_token (tokens w)) ->
     unique_token_values (tokens (exec (generate_auth_token user) w))).
Proof.
  intros w user Huniq. split_and!.
  - unfold exec. rewrite delete_auth_token_run.
    cbn [snd tokens record set_tokens]. now apply delete_rows_unique.
  - intros Hsome. rewrite tokens_after_issue.
    now destruct (head (tokens_of_user user 1 (tokens w))).
  - intros Hfresh. rewrite tokens_after_issue.
    destruct (head (tokens_of_user user 1 (tokens w))); [exact Huniq|].
    apply snoc_unique. split; [exact Huniq|exact Hfresh].
Qed.

Lemma unique_token_values_after_operations_witness :
  unique_token_values
    (tokens (exec (delete_auth_token 42) (sample_world ∅ [alice_token]))) /\
  unique_token_values
    (tokens (exec (generate_auth_token 7) (sample_world ∅ [alice_token]))).
Proof.
  destruct (unique_token_values_after_operations
              (sample_world ∅ [alice_token]) 42) as (Hrevoke & _ & _).
  { apply (bool_decide_unpack _). vm_compute. exact I. }
  destruct (unique_token_values_after_operations
              (sample_world ∅ [alice_token]) 7) as (_ & _ & Hissue).
  { apply (bool_decide_unpack _). vm_compute. exact I. }
  split; [exact Hrevoke|].
  apply Hissue. intros [Hsame|[]]. discriminate Hsame.
Defined.

Lemma run_op_keeps_issued_shape (o : op) (w : world) :
  Forall issued_shape (tokens w) -> Forall issued_shape (tokens (run_op o w)).
Proof.
  intros Hall. destruct o as [user|user]; cbn [run_op].
  - rewrite tokens_after_issue.
    destruct (head (tokens_of_user user 1 (tokens w))); [exact Hall|].
    apply Forall_app. split; [exact Hall|].
    constructor; [apply fresh_row_shape|constructor].
  - unfold exec. rewrite delete_auth_token_run.
    cbn [snd tokens record set_tokens].
    rewrite List.Forall_forall in *. intros t Hin.
    apply in_delete_rows in Hin as [Hin _]. now apply Hall.
Qed.

Lemma run_ops_keeps_invariants (os : list op) (w : world) :
  one_token_per_user (tokens w) -> Forall issued_shape (tokens w) ->
  one_token_per_user (tokens (run_ops os w)) /\
  Forall issued_shape (tokens (run_ops os w)).
Proof.
  unfold run_ops. revert w.
  induction os as [|o os IH]; intros w Hone Hshape; simpl; [tauto|].
  apply IH.
  - now apply run_op_preserves_one_token_per_user.
  - now apply run_op_keeps_issued_shape.
Qed.

(** X15. The rows the module stores keep their shape: when every row of
    the table has type 1, no expiry and a value of 32 lower-case
    hexadecimal digits, this still holds after every sequence of
    issuances and revocations. *)
Theorem issued_shape_invariant :
  forall (os : list op) (w : world),
    Forall issued_shape (tokens w) ->
    Forall issued_shape (tokens (run_ops os w)).
Proof.
  intros os. unfold run_ops.
  induction os as [|o os IH]; intros w Hshape; simpl; [exact Hshape|].
  apply IH. now apply run_op_keeps_issued_shape.
Qed.

Lemma issued_shape_invariant_witness :
  Forall issued_shape
    (tokens (run_ops [Issue 7; Revoke 42; Issue 42; Issue 7]
                     (sample_world ∅ [alice_token]))).
Proof.
  apply (issued_shape_invariant [Issue 7; Revoke 42; Issue 42; Issue 7]
           (sample_world ∅ [alice_token])).
  constructor; [|constructor].
  unfold issued_shape. split_and!; try reflexivity.
  cbn. repeat constructor.
Defined.

(** X16. Starting from an empty token table, after every sequence of
    issuances and revocations each user owns at most one row in all,
    and every row is a sync token of the issued shape. *)
Theorem from_empty_table_one_row_per_user :
  forall (os : list op) (w : world),
    tokens w = [] ->
    (forall user : Z,
        (length (List.filter (fun t => (ub.user_id t =? user)%Z)
                             (tokens (run_ops os w))) <= 1)%nat) /\
    Forall issued_shape (tokens (run_ops os w)).
Proof.
  intros os w Hempty.
  destruct (run_ops_keeps_invariants os w) as [Hone Hshape].
  { rewrite Hempty. intros u ty. simpl. lia. }
  { rewrite Hempty. constructor. }
  split; [|exact Hshape].
  intros user. specialize (Hone user 1). unfold tokens_of_user in Hone.
  rewrite List.Forall_forall in Hshape.
  erewrite (List.filter_ext_in _ (fun _ => true)) in Hone.
  - now rewrite filter_true in Hone.
  - intros t Hin. apply filter_In in Hin as [Hin _].
    destruct (Hshape t Hin) as [-> _]. reflexivity.
Qed.

Lemma from_empty_table_one_row_per_user_witness :
  Forall issued_shape
    (tokens (run_ops [Issue 42; Issue 42; Issue 7; Revoke 42; Issue 42]
                     (sample_world ∅ []))).
Proof.
  apply (from_empty_table_one_row_per_user
           [Issue 42; Issue 42; Issue 7; Revoke 42; Issue 42] (sample_world ∅ [])).
  reflexivity.
Defined.

(** X17. The setup URL works: after [generate_auth_token] for a user of
    the user table, a request presenting the token the page shows is
    resolved to that user, provided token values are unique in the
    table the issuance leaves. *)
Theorem shown_token_resolves_to_its_user :
  forall (Request : Type) (request : Request) (w : world) (U : ub.User),
    unique_user_ids (users w) ->
    In U (users w) ->
    unique_token_values (tokens (exec (generate_auth_token (ub.id U)) w)) ->
    exists T,
      fst (generate_auth_token (ub.id U) w) = Ok (setup_page T) /\
      forall w2,
        users w2 = users w ->
        tokens w2 = tokens (exec (generate_auth_token (ub.id U)) w) ->
        g w2 !! "auth_token" = Some T ->
        fst (load_user_from_kobo_request request w2) = Ok (Some U).
Proof.
  intros Request request w U Hus HU Huniq.
  assert (Hstored : exists row,
             fst (generate_auth_token (ub.id U) w)
             = Ok (setup_page (ub.auth_token row)) /\
             In row (tokens (exec (generate_auth_token (ub.id U)) w)) /\
             ub.user_id row = ub.id U /\ ub.token_type row = 1).
  { rewrite tokens_after_issue.
    destruct (head (tokens_of_user (ub.id U) 1 (tokens w))) as [kept|] eqn:Hhead.
    - exists kept. split; [now issue_with Hhead|].
      now apply head_tokens_of_user.
    - exists (fresh_row (ub.id U) w).
      split; [now rewrite (issue_fresh_world _ w Hhead)|].
      split; [|split; reflexivity].
      apply in_app_iff. right. now left. }
  destruct Hstored as (row & Hpage & Hin & Hid & Hty).
  exists (ub.auth_token row). split; [exact Hpage|].
  intros w2 Husers Htokens Hg.
  rewrite load_user_run, Hg. cbv zeta. rewrite Husers, Htokens.
  now rewrite (select_user_by_token_owner _ 1 _ _ U row Hus Huniq HU Hin Hid
                 eq_refl Hty).
Qed.

Lemma shown_token_resolves_to_its_user_witness :
  fst (load_user_from_kobo_request tt
         (sample_world {[ "auth_token" := "3c3c3c3c3c3c3c3c3c3c3c3c3c3c3c3c" ]}
            (tokens (exec (generate_auth_token 42) (sample_world ∅ [])))))
  = Ok (Some alice).
Proof.
  destruct (shown_token_resolves_to_its_user unit tt (sample_world ∅ []) alice)
    as (T & Hpage & Hresolve).
  - apply (bool_decide_unpack _). vm_compute. exact I.
  - simpl. now left.
  - apply (bool_decide_unpack _). vm_compute. exact I.
  - apply Hresolve; [reflexivity|reflexivity|].
    injection Hpage as <-. reflexivity.
Defined.
